(** * CameraSet: a set of cameras projecting one landmark

    Shallow embedding of [gtsam/geometry/CameraSet.h].  The class is a
    template over the camera type, so the whole development lives in a
    section whose variables are the members the template expects of
    [CAMERA]: its measurement type, its dimensions, [equals] and [project].
    The scalar type [double] is abstract as well: the class only copies
    coefficients and hands the tolerance on to the camera. *)

From stdpp Require Import base list option strings.
From Stdlib Require Import Lia ZArith.

Set Default Proof Using "Type".

(** ** Outcomes of a call

    A C++ call returns, throws, or has undefined behaviour (an unchecked
    [operator[]] out of range). *)

Inductive exception (CheiralityException : Type) : Type :=
  | Cheirality (e : CheiralityException)   (* thrown by CAMERA::project *)
  | out_of_range.                          (* thrown by std::vector::at *)
Arguments Cheirality {_} e.
Arguments out_of_range {_}.

Inductive outcome (X A : Type) : Type :=
  | Return (a : A)
  | Throw (e : exception X)
  | Undefined.
Arguments Return {_ _} a.
Arguments Throw {_ _} e.
Arguments Undefined {_ _}.

Definition outcome_bind {X A B : Type} (f : A -> outcome X B)
    (m : outcome X A) : outcome X B :=
  match m with
  | Return a => f a
  | Throw e => Throw e
  | Undefined => Undefined
  end.

#[global] Instance outcome_ret {X} : MRet (outcome X) := fun _ a => Return a.
#[global] Instance outcome_mbind {X} : MBind (outcome X) :=
  fun _ _ f m => outcome_bind f m.

(** [std::vector::at]: bounds-checked element access. *)
Definition at_ {X A : Type} (v : list A) (i : nat) : outcome X A :=
  match v !! i with
  | Some x => Return x
  | None => Throw out_of_range
  end.

(** [std::vector::operator[]]: unchecked read and write. *)
Definition subscript {X A : Type} (v : list A) (i : nat) : outcome X A :=
  match v !! i with
  | Some x => Return x
  | None => Undefined
  end.

Definition subscript_assign {X A : Type} (v : list A) (i : nat) (x : A)
  : outcome X (list A) :=
  if decide (i < length v) then Return (<[i := x]> v) else Undefined.

(** ** Counted loops *)

(** [for (k = 0; k < n; ++k) s = body k s], for a body that cannot fail. *)
Fixpoint for_n {St : Type} (n : nat) (body : nat -> St -> St) (s : St) : St :=
  match n with
  | 0 => s
  | S k => body k (for_n k body s)
  end.

(** ** Matrices

    [Matrix] (gtsam/base/Matrix.h) and the fixed-size matrices are Eigen's
    and are not defined in CameraSet.h; the class resizes a [Matrix] and
    assigns to its blocks, nothing else. *)

Section Eigen.
Context {double : Type}.

(** Modelled from the spec: the type [Matrix] is missing from the sources.
    The spec has block matrices with a number of rows, a number of columns
    and one row-block per camera; they are taken as Eigen's dynamic matrix
    of doubles in its default layout: the two sizes and one flat array of
    coefficients, column after column. *)
Record Matrix : Type := mkMatrix {
  rows : nat;
  cols : nat;
  m_storage : list double
}.

(** A fixed-size [Eigen::Matrix<double, R, C>] local is read through its
    coefficient accessor only, and is modelled as that accessor. *)
Definition Block : Type := nat -> nat -> double.

(** The class invariant of Eigen's storage. *)
Definition matrix_wf (M : Matrix) : Prop :=
  length (m_storage M) = rows M * cols M.

(** [M(r, c)], where it exists. *)
Definition coeff (M : Matrix) (r c : nat) : option double :=
  if decide (r < rows M /\ c < cols M)
  then m_storage M !! (r + c * rows M)
  else None.

(** [M(r, c) = x]. *)
Definition coeff_assign (M : Matrix) (r c : nat) (x : double) : Matrix :=
  mkMatrix (rows M) (cols M) (<[r + c * rows M := x]> (m_storage M)).

(** Storage handed out by the allocator: its content is whatever
    [uninitialized] says, one coefficient per offset. *)
Variable uninitialized : nat -> double.

(** Modelled from the spec: [resize] is missing from the sources.  The
    spec has result containers sized for the camera count; [M.resize(r, c)]
    is Eigen's: the array is kept when the number of coefficients does not
    change and is reallocated, uninitialised, when it does. *)
Definition resize (M : Matrix) (r c : nat) : Matrix :=
  if decide (rows M * cols M = r * c)
  then mkMatrix r c (m_storage M)
  else mkMatrix r c (uninitialized <$> seq 0 (r * c)).

(** Modelled from the spec: block assignment is missing from the sources.
    The spec copies each block into row-block [i] of the stacked matrix;
    [M.block<blockRows, blockCols>(startRow, startCol) = B] copies the
    coefficients of [B] one by one, column by column.  Eigen checks the
    range of a block in debug builds only; that check is not modelled, and
    a block without columns copies nothing.  A coefficient outside the
    storage is not written and the assignment still returns: no result
    below speaks of a block assignment that leaves the matrix. *)
Definition block_assign (M : Matrix) (startRow startCol : nat)
    (blockRows blockCols : nat) (B : Block) : Matrix :=
  for_n blockCols (fun c M =>
    for_n blockRows (fun r M =>
      coeff_assign M (startRow + r) (startCol + c) (B r c)) M) M.
End Eigen.
Arguments Matrix : clear implicits.
Arguments Block : clear implicits.
Arguments block_assign : simpl never.
Arguments resize : simpl never.

(** ** The class template *)

Section CameraSet.
Context {double CAMERA Z Point3 CheiralityException : Type}.

(** [traits<Z>::dimension] and [traits<CAMERA>::dimension], two
    compile-time constants.  [Dim - 6] is the number of columns of [Hi]:
    the class is for [Dim >= 6], and the subtraction of [nat] is that of
    the code there.  Sizes are unbounded: a product such as
    [ZDim * nrCameras] does not wrap around. *)
Variable ZDim : nat.
Variable Dim : nat.

(** A value-initialised measurement, as [std::vector<Z> z(n)] makes them. *)
Variable Z_init : Z.

(** What [CAMERA::project] leaves behind when it returns: the
    measurement and the three fixed-size locals it was given pointers to
    ([Fi], [Ei] and [Hi] are read only where the pointer was not null). *)
Record Projection : Type := mkProjection {
  measured : Z;
  Fi : Block double;
  Ei : Block double;
  Hi : Block double
}.

(** [CAMERA::equals(other, tol)]. *)
Variable camera_equals : CAMERA -> CAMERA -> double -> bool.

(** [CAMERA::project(point, Dpose, Dpoint, Dcal)]; each flag says whether
    the pointer passed is non-null.  It throws [CheiralityException]. *)
Variable camera_project :
  CAMERA -> Point3 -> bool -> bool -> bool -> CheiralityException + Projection.

(** The content of freshly allocated storage. *)
Variable uninitialized : nat -> double.

Record CameraSet : Type := mkCameraSet {
  cameras_ : list CAMERA
}.

(** [CameraSet()] and [add]. *)
Definition empty : CameraSet := mkCameraSet [].

Definition add (this : CameraSet) (camera : CAMERA) : CameraSet :=
  mkCameraSet (cameras_ this ++ [camera]).

(** *** equals *)

(** What one run of a loop body asks of the loop. *)
Inductive control : Type := Continue | Break.

(** [for (; i < bound; i++) body], [n] being the iterations left. *)
Fixpoint for_break {St : Type} (n i : nat)
    (body : nat -> St -> outcome CheiralityException (control * St)) (s : St)
  : outcome CheiralityException St :=
  match n with
  | 0 => Return s
  | S n' =>
      match body i s with
      | Return (Continue, s') => for_break n' (S i) body s'
      | Return (Break, s') => Return s'
      | Throw e => Throw e
      | Undefined => Undefined
      end
  end.

(** The body of the loop of [equals]: the [if] governs the assignment
    only, the [break] is its own statement. *)
Definition equals_body (this p : CameraSet) (tol : double) (i : nat)
    (camerasAreEqual : bool) : outcome CheiralityException (control * bool) :=
  a ← at_ (cameras_ this) i;
  b ← at_ (cameras_ p) i;
  let camerasAreEqual :=
    if bool_decide (camera_equals a b tol = false)
    then false else camerasAreEqual in
  mret (Break, camerasAreEqual).

Definition equals (this p : CameraSet) (tol : double)
  : outcome CheiralityException bool :=
  let camerasAreEqual := true in
  for_break (length (cameras_ this)) 0 (equals_body this p tol)
    camerasAreEqual.

(** *** project

    [project] is a [const] member that writes through the three optional
    references it is given.  A call runs on a store holding the object
    and the matrices the references point to ([None] for [boost::none]);
    the store is what the caller sees afterwards, also when the call
    throws. *)

Record Store : Type := mkStore {
  this : CameraSet;
  F : option (Matrix double);
  E : option (Matrix double);
  H : option (Matrix double)
}.

Definition Comp (A : Type) : Type :=
  Store -> outcome CheiralityException A * Store.

Definition comp_bind {A B : Type} (f : A -> Comp B) (m : Comp A) : Comp B :=
  fun s =>
    match m s with
    | (Return a, s') => f a s'
    | (Throw e, s') => (Throw e, s')
    | (Undefined, s') => (Undefined, s')
    end.

#[global] Instance comp_ret : MRet Comp := fun _ a s => (Return a, s).
#[global] Instance comp_mbind : MBind Comp := fun _ _ f m => comp_bind f m.

Definition lift {A : Type} (o : outcome CheiralityException A) : Comp A :=
  fun s => (o, s).

(** [cameras_], read. *)
Definition get_cameras : Comp (list CAMERA) :=
  fun s => (Return (cameras_ (this s)), s).

(** The tests [F ? ... : 0], [E ? ... : 0] and [H ? ... : 0]. *)
Definition given (ref : Store -> option (Matrix double)) : Comp bool :=
  fun s => (Return (bool_decide (is_Some (ref s))), s).

(** [if (F) F->f(...)], and the same for [E] and [H]. *)
Definition if_F (f : Matrix double -> Matrix double) : Comp unit :=
  fun s => (Return (), mkStore (this s) (f <$> F s) (E s) (H s)).
Definition if_E (f : Matrix double -> Matrix double) : Comp unit :=
  fun s => (Return (), mkStore (this s) (F s) (f <$> E s) (H s)).
Definition if_H (f : Matrix double -> Matrix double) : Comp unit :=
  fun s => (Return (), mkStore (this s) (F s) (E s) (f <$> H s)).

Definition call_project (camera : CAMERA) (point : Point3)
    (Dpose Dpoint Dcal : bool) : Comp Projection :=
  lift (match camera_project camera point Dpose Dpoint Dcal with
        | inl e => Throw (Cheirality e)
        | inr out => Return out
        end).

(** [for (; i < bound; i++) z = body i z], [n] being the iterations left. *)
Fixpoint for_ {A : Type} (n i : nat) (body : nat -> A -> Comp A) (z : A)
  : Comp A :=
  match n with
  | 0 => mret z
  | S n' => z' ← body i z; for_ n' (S i) body z'
  end.

Definition project_body (point : Point3) (i : nat) (z : list Z)
  : Comp (list Z) :=
  Dpose ← given F;
  Dpoint ← given E;
  Dcal ← given H;
  cameras ← get_cameras;
  camera ← lift (subscript cameras i);
  out ← call_project camera point Dpose Dpoint Dcal;
  z ← lift (subscript_assign z i (measured out));
  if_F (fun M => block_assign M (ZDim * i) 0 ZDim 6 (Fi out));;
  if_E (fun M => block_assign M (ZDim * i) 0 ZDim 3 (Ei out));;
  if_H (fun M => block_assign M (ZDim * i) 0 ZDim (Dim - 6) (Hi out));;
  mret z.

(** The bound of the loop is [cameras_.size()]; the body does not write
    [cameras_] (see [project_body_this]), so it is the [nrCameras] read
    on entry. *)
Definition project (point : Point3) : Comp (list Z) :=
  cameras ← get_cameras;
  let nrCameras := length cameras in
  if_F (fun M => resize uninitialized M (ZDim * nrCameras) 6);;
  if_E (fun M => resize uninitialized M (ZDim * nrCameras) 3);;
  (if bool_decide (6 < Dim)
   then if_H (fun M => resize uninitialized M (ZDim * nrCameras) (Dim - 6))
   else mret ());;
  let z := replicate nrCameras Z_init in
  for_ nrCameras 0 (project_body point) z.

(** *** Vocabulary of the results on [project] *)

(** The store on entry to the loop: the references given are resized. *)
Definition resized (s : Store) : Store :=
  let nrCameras := length (cameras_ (this s)) in
  mkStore (this s)
    ((fun M => resize uninitialized M (ZDim * nrCameras) 6) <$> F s)
    ((fun M => resize uninitialized M (ZDim * nrCameras) 3) <$> E s)
    (if bool_decide (6 < Dim)
     then (fun M => resize uninitialized M (ZDim * nrCameras) (Dim - 6))
            <$> H s
     else H s).

(** What a camera of the set computes on [point] by itself, asked for
    the derivatives the caller of [project] asked for in store [s]. *)
Definition own_projection (point : Point3) (s : Store) (camera : CAMERA)
  : CheiralityException + Projection :=
  camera_project camera point
    (bool_decide (is_Some (F s)))
    (bool_decide (is_Some (E s)))
    (bool_decide (is_Some (H s))).

(** No camera of the set fails on [point]. *)
Definition observable (point : Point3) (s : Store) : Prop :=
  forall camera, camera ∈ cameras_ (this s) ->
    exists out, own_projection point s camera = inr out.

(** The matrices the caller passes are well-formed Eigen matrices. *)
Definition references_wf (s : Store) : Prop :=
  forall M, F s = Some M \/ E s = Some M \/ H s = Some M -> matrix_wf M.

(** The same references are given in both stores. *)
Definition same_given (s0 s : Store) : Prop :=
  (is_Some (F s) <-> is_Some (F s0))
  /\ (is_Some (E s) <-> is_Some (E s0))
  /\ (is_Some (H s) <-> is_Some (H s0)).

(** The matrix behind a reference, if one is given, is [r] by [c]. *)
Definition dims (ref : option (Matrix double)) (r c : nat) : Prop :=
  forall M, ref = Some M -> rows M = r /\ cols M = c.

(** Row-block [i] of [M], the [ZDim] rows from row [ZDim * i] on, over
    the first [width] columns, is [B]. *)
Definition row_block_is (M : Matrix double) (i width : nat)
    (B : Block double) : Prop :=
  forall r c, r < ZDim -> c < width ->
    coeff M (ZDim * i + r) c = Some (B r c).

(** The measurements of the cameras before [i] are in [z]. *)
Definition projected (point : Point3) (s0 : Store) (i : nat) (z : list Z)
  : Prop :=
  forall j camera out,
    j < i -> cameras_ (this s0) !! j = Some camera ->
    own_projection point s0 camera = inr out ->
    z !! j = Some (measured out).

(** The row-blocks of the cameras before [i] are in the matrix behind
    [ref]; [sel] is the derivative the matrix stacks. *)
Definition rows_filled (sel : Projection -> Block double) (width : nat)
    (point : Point3) (s0 : Store) (i : nat)
    (ref : option (Matrix double)) : Prop :=
  forall M j camera out,
    ref = Some M ->
    j < i -> cameras_ (this s0) !! j = Some camera ->
    own_projection point s0 camera = inr out ->
    row_block_is M j width (sel out).

(** The invariant of the loop of [project], called on store [s0]: where
    the loop stands before iteration [i], with [z] and store [s]. *)
Definition loop_invariant (point : Point3) (s0 : Store) (i : nat)
    (z : list Z) (s : Store) : Prop :=
  let nrCameras := length (cameras_ (this s0)) in
  this s = this s0
  /\ length z = nrCameras
  /\ same_given s0 s
  /\ dims (F s) (ZDim * nrCameras) 6
  /\ dims (E s) (ZDim * nrCameras) 3
  /\ (6 < Dim -> dims (H s) (ZDim * nrCameras) (Dim - 6))
  /\ (Dim <= 6 -> H s = H s0)
  /\ projected point s0 i z
  /\ (references_wf s0 ->
      references_wf s
      /\ rows_filled Fi 6 point s0 i (F s)
      /\ rows_filled Ei 3 point s0 i (E s)
      /\ rows_filled Hi (Dim - 6) point s0 i (H s)).

(** A computation that leaves the object as it found it. *)
Definition keeps_this {A : Type} (m : Comp A) : Prop :=
  forall s, this (m s).2 = this s.

End CameraSet.

Arguments Projection : clear implicits.
Arguments CameraSet : clear implicits.
Arguments Store : clear implicits.
Arguments Comp : clear implicits.

(** ** A camera to run the class on

    Cameras on a rail, with integer coefficients: a camera sits at
    [position] and looks towards the larger abscissas, a landmark is its
    abscissa, and a landmark that is not strictly in front of the camera
    cannot be projected.  The camera has the six pose parameters and one
    calibration parameter, its measurement has two coordinates. *)

Module Rail.
Record Camera : Type := mkCamera {
  position : Z;
  focal : Z
}.

Definition ZDim : nat := 2.
Definition Dim : nat := 7.

Definition camera_equals (a b : Camera) (tol : Z) : bool :=
  (Z.abs (position a - position b) <=? tol)%Z
  && (Z.abs (focal a - focal b) <=? tol)%Z.


(** The exception carries the depth that was refused. *)
Definition camera_project (camera : Camera) (point : Z)
    (Dpose Dpoint Dcal : bool)
  : Z + Projection Z Z :=
  let depth := (point - position camera)%Z in
  if (depth <=? 0)%Z then inl depth
  else inr (mkProjection
              (focal camera * depth)%Z
              (fun r c => (focal camera + Z.of_nat r + 10 * Z.of_nat c)%Z)
              (fun r c => (depth + Z.of_nat r - Z.of_nat c)%Z)
              (fun r c => (depth * Z.of_nat (S r) + Z.of_nat c)%Z)).

(** A camera without calibration parameters, for [Dim = 6]. *)
Definition PoseDim : nat := 6.

Definition near : Camera := mkCamera 0 2.
Definition far : Camera := mkCamera 5 3.
Definition other : Camera := mkCamera 9 3.

Definition pair : CameraSet Camera := add (add empty near) far.
Definition pair' : CameraSet Camera := add (add empty near) other.
Definition single : CameraSet Camera := add empty near.

Definition garbage (offset : nat) : Z := (-1 - Z.of_nat offset)%Z.

(** A caller that passes three default-constructed matrices. *)
Definition call_with_all (cameras : CameraSet Camera) : Store Z Camera :=
  mkStore cameras (Some (mkMatrix 0 0 [])) (Some (mkMatrix 0 0 []))
    (Some (mkMatrix 0 0 [])).

(** A caller that passes no matrix. *)
Definition call_with_none (cameras : CameraSet Camera) : Store Z Camera :=
  mkStore cameras None None None.

(** A caller whose first matrix is not empty and whose third one already
    has the size of the result for two cameras. *)
Definition call_with_used (cameras : CameraSet Camera) : Store Z Camera :=
  mkStore cameras (Some (mkMatrix 1 2 [40; 41]%Z)) (Some (mkMatrix 0 0 []))
    (Some (mkMatrix 2 2 [50; 51; 52; 53]%Z)).

Definition other_garbage (offset : nat) : Z := Z.of_nat (100 + offset).
End Rail.

(** ** print

    [print] writes on [std::cout].  The stream is the list of the texts
    written on it so far, one per insertion or camera. *)

Section Print.
Context {CAMERA X : Type}.

(** What [cameras_[k]->print()] writes, with the default arguments of the
    camera's [print]. *)
Variable camera_print : CAMERA -> string.

Definition newline : string := String (Ascii.ascii_of_nat 10) EmptyString.

Definition print_body (this : CameraSet CAMERA) (k : nat) (cout : list string)
  : outcome X (control * list string) :=
  camera ← subscript (cameras_ this) k;
  mret (Continue, cout ++ [camera_print camera]).

Definition print (this : CameraSet CAMERA) (s : string) (cout : list string)
  : outcome X (list string) :=
  let cout := cout ++ [s] ++ ["CameraSet, cameras = " +:+ newline] in
  for_break (length (cameras_ this)) 0 (print_body this) cout.

End Print.

(** ** What a call of [project] leaves in the matrices *)

Section Stacked.
Context {double CAMERA Z Point3 CheiralityException : Type}.
Variables ZDim Dim : nat.
Variable camera_project :
  CAMERA -> Point3 -> bool -> bool -> bool ->
  CheiralityException + Projection double Z.

(** In store [s'] the matrices given have the sizes of the results of a
    call on store [s]. *)
Definition sized_for (s s' : Store double CAMERA) : Prop :=
  let nrCameras := length (cameras_ (this s)) in
  dims (F s') (ZDim * nrCameras) 6
  /\ dims (E s') (ZDim * nrCameras) 3
  /\ (6 < Dim -> dims (H s') (ZDim * nrCameras) (Dim - 6)).

(** In store [s'] the matrices given hold the row-blocks of the cameras
    before [j], as a call on store [s] computes them. *)
Definition stacked_before (point : Point3) (s : Store double CAMERA)
    (j : nat) (s' : Store double CAMERA) : Prop :=
  rows_filled ZDim camera_project Fi 6 point s j (F s')
  /\ rows_filled ZDim camera_project Ei 3 point s j (E s')
  /\ rows_filled ZDim camera_project Hi (Dim - 6) point s j (H s').

(** The store of a call on the set of [s] with one more camera, and the
    same references. *)
Definition with_added (s : Store double CAMERA) (camera : CAMERA)
  : Store double CAMERA :=
  mkStore (add (this s) camera) (F s) (E s) (H s).

(** The store a call on a set without cameras leaves: the matrices given
    have no row. *)
Definition emptied (s : Store double CAMERA) : Store double CAMERA :=
  mkStore (this s)
    ((fun _ => mkMatrix 0 6 []) <$> F s)
    ((fun _ => mkMatrix 0 3 []) <$> E s)
    (if bool_decide (6 < Dim)
     then (fun _ => mkMatrix 0 (Dim - 6) []) <$> H s
     else H s).

End Stacked.

(** ** Results on [equals] *)

Section EqualsTheory.
Context {double CAMERA CheiralityException : Type}.
Variable camera_equals : CAMERA -> CAMERA -> double -> bool.

Local Abbreviation equals :=
  (equals (CheiralityException := CheiralityException) camera_equals).

(** The test of the body, [e == false ? false : true], is [e]. *)
Lemma verdict_of_first (e : bool) :
  (if bool_decide (e = false) then false else true) = e.
Proof. by destruct e. Qed.

(** The loop runs its body once at most: the result is decided by the
    first camera of each set. *)
Lemma equals_first (this p : CameraSet CAMERA) (tol : double) :
  equals this p tol =
    match cameras_ this, cameras_ p with
    | [], _ => Return true
    | _ :: _, [] => Throw out_of_range
    | a :: _, b :: _ => Return (camera_equals a b tol)
    end.
Proof.
  destruct this as [[|a l]], p as [[|b l']]; try reflexivity.
  cbn. by rewrite verdict_of_first.
Qed.


(** C9: on two sets of different sizes [equals] checks no size and
    reports no mismatch: it throws [out_of_range] from [at] exactly when
    the other set has no camera, and otherwise returns the verdict on
    the first cameras ([true] when this set is empty). *)
Theorem equals_sizes_differ (this p : CameraSet CAMERA) (tol : double) :
  length (cameras_ this) <> length (cameras_ p) ->
  match cameras_ p with
  | [] => equals this p tol = Throw out_of_range
  | b :: _ =>
      equals this p tol =
        Return (match cameras_ this with
                | [] => true
                | a :: _ => camera_equals a b tol
                end)
  end.
Proof.
  intros Hlen. rewrite equals_first.
  destruct (cameras_ this) as [|a l], (cameras_ p) as [|b l'];
    cbn in Hlen; done.
Qed.

(** C10: an empty set equals every set, empty or not: the loop is
    bounded by the size of this set and compares nothing. *)
Theorem equals_empty_this (p : CameraSet CAMERA) (tol : double) :
  equals empty p tol = Return true.
Proof. reflexivity. Qed.

End EqualsTheory.

(** ** Results on the matrix operations *)

Section EigenTheory.
Context {double : Type}.
Implicit Types (M : Matrix double) (B : Block double).

Lemma for_n_invariant {St : Type} (P : nat -> St -> Prop)
    (body : nat -> St -> St) (n : nat) (s : St) :
  P 0 s ->
  (forall k t, k < n -> P k t -> P (S k) (body k t)) ->
  P n (for_n n body s).
Proof.
  intros H0 Hstep. induction n as [|n IH]; cbn; [done|].
  apply Hstep; [lia|]. apply IH. intros k t Hk. apply Hstep. lia.
Qed.

(** Two coefficients of one matrix share no offset. *)
Lemma offset_inj (R r c r' c' : nat) :
  r < R -> r' < R -> r + c * R = r' + c' * R -> r = r' /\ c = c'.
Proof.
  intros Hr Hr' Heq.
  destruct (Nat.div_mod_unique R c c' r r') as [-> ->]; [done..|lia|done].
Qed.

Lemma offset_lt (R C r c : nat) : r < R -> c < C -> r + c * R < R * C.
Proof. intros Hr Hc. nia. Qed.

Lemma matrix_wf_coeff_assign M r c x :
  matrix_wf M -> matrix_wf (coeff_assign M r c x).
Proof. unfold matrix_wf. cbn. by rewrite length_insert. Qed.

Lemma coeff_coeff_assign M r c x r' c' :
  matrix_wf M -> r < rows M -> c < cols M ->
  coeff (coeff_assign M r c x) r' c' =
    if decide (r' = r /\ c' = c) then Some x else coeff M r' c'.
Proof.
  intros Hwf Hr Hc. unfold coeff. cbn.
  destruct (decide (r' < rows M /\ c' < cols M)) as [[Hr' Hc']|Hout].
  - rewrite list_lookup_insert.
    pose proof (offset_lt _ _ _ _ Hr Hc) as Hlt. rewrite <- Hwf in Hlt.
    destruct (decide (r' = r /\ c' = c)) as [[-> ->]|Hne].
    + by rewrite decide_True.
    + rewrite decide_False; [done|]. intros [Heq _]. apply Hne.
      by destruct (offset_inj (rows M) r c r' c').
  - rewrite decide_False; [done|]. intros [-> ->]. by apply Hout.
Qed.

(** What [block_assign] does to a matrix that holds the block: the sizes
    stay, the coefficients of the block are those of [B], the others are
    kept. *)
Lemma block_assign_spec M startRow startCol blockRows blockCols B :
  matrix_wf M ->
  startRow + blockRows <= rows M ->
  startCol + blockCols <= cols M ->
  let M' := block_assign M startRow startCol blockRows blockCols B in
  rows M' = rows M /\ cols M' = cols M /\ matrix_wf M' /\
  forall r c,
    coeff M' r c =
      if decide ((startRow <= r < startRow + blockRows)
                 /\ (startCol <= c < startCol + blockCols))
      then Some (B (r - startRow) (c - startCol))
      else coeff M r c.
Proof.
  intros Hwf Hrows Hcols. unfold block_assign.
  pose (Outer := fun (k : nat) M' =>
    rows M' = rows M /\ cols M' = cols M /\ matrix_wf M' /\
    forall r c,
      coeff M' r c =
        if decide ((startRow <= r < startRow + blockRows)
                   /\ (startCol <= c < startCol + k))
        then Some (B (r - startRow) (c - startCol))
        else coeff M r c).
  apply (for_n_invariant Outer); subst Outer; cbn beta.
  { repeat split; try done. intros r c. case_decide; [lia|done]. }
  intros k M1 Hk (HR1 & HC1 & Hwf1 & Hco1).
  pose (Inner := fun (j : nat) M' =>
    rows M' = rows M /\ cols M' = cols M /\ matrix_wf M' /\
    forall r c,
      coeff M' r c =
        if decide (((startRow <= r < startRow + blockRows)
                    /\ (startCol <= c < startCol + k))
                   \/ ((startRow <= r < startRow + j)
                       /\ c = startCol + k))
        then Some (B (r - startRow) (c - startCol))
        else coeff M r c).
  cut (Inner blockRows
         (for_n blockRows (fun r M0 =>
            coeff_assign M0 (startRow + r) (startCol + k) (B r k)) M1)).
  { subst Inner. cbn beta. intros (HR2 & HC2 & Hwf2 & Hco2).
    repeat split; try done.
    intros r c. rewrite Hco2. repeat case_decide; try done; lia. }
  apply (for_n_invariant Inner); subst Inner; cbn beta.
  { repeat split; try done. intros r c. rewrite Hco1.
    repeat case_decide; try done; lia. }
  intros j M2 Hj (HR2 & HC2 & Hwf2 & Hco2).
  repeat split; try done.
  { by apply matrix_wf_coeff_assign. }
  intros r c. rewrite coeff_coeff_assign by (done || lia). rewrite Hco2.
  repeat case_decide; try done; try lia.
  destruct_and!; subst. do 2 f_equal; lia.
Qed.

(** A block without columns is no assignment at all. *)
Lemma block_assign_no_column M startRow startCol blockRows B :
  block_assign M startRow startCol blockRows 0 B = M.
Proof. reflexivity. Qed.

Lemma resize_shape (uninitialized : nat -> double) M r c :
  matrix_wf M ->
  let M' := resize uninitialized M r c in
  rows M' = r /\ cols M' = c /\ matrix_wf M'.
Proof.
  intros Hwf. unfold resize. case_decide; cbn; repeat split.
  - unfold matrix_wf in *. cbn. congruence.
  - unfold matrix_wf. cbn. by rewrite length_fmap, length_seq.
Qed.

End EigenTheory.

(** ** Results on [project] *)

Section ProjectTheory.
Context {double CAMERA Z Point3 CheiralityException : Type}.
Variables ZDim Dim : nat.
Variable Z_init : Z.
Variable camera_project :
  CAMERA -> Point3 -> bool -> bool -> bool ->
  CheiralityException + Projection double Z.
Variable uninitialized : nat -> double.

Local Abbreviation Store := (Store double CAMERA).
Local Abbreviation Comp := (Comp double CAMERA CheiralityException).
Local Abbreviation project_body := (project_body ZDim Dim camera_project).
Local Abbreviation project :=
  (project ZDim Dim Z_init camera_project uninitialized).
Local Abbreviation resized := (resized ZDim Dim uninitialized).
Local Abbreviation own_projection := (own_projection camera_project).
Local Abbreviation observable := (observable camera_project).
Local Abbreviation loop_invariant :=
  (loop_invariant ZDim Dim camera_project).
Local Abbreviation row_block_is := (row_block_is ZDim).
Local Abbreviation rows_filled := (rows_filled ZDim camera_project).
Local Abbreviation projected := (projected camera_project).

Implicit Types (s : Store) (point : Point3) (z : list Z).

(** *** The object is left alone *)

Lemma keeps_this_ret {A : Type} (a : A) : keeps_this (mret a : Comp A).
Proof. by intros s. Qed.

Lemma keeps_this_bind {A B : Type} (m : Comp A) (f : A -> Comp B) :
  keeps_this m -> (forall a, keeps_this (f a)) -> keeps_this (m ≫= f).
Proof.
  intros Hm Hf s. unfold mbind, comp_mbind, comp_bind.
  specialize (Hm s). destruct (m s) as [[a| |] s1]; cbn in *; [|done..].
  by rewrite Hf.
Qed.

Lemma keeps_this_for_ {A : Type} (body : nat -> A -> Comp A) :
  (forall i a, keeps_this (body i a)) ->
  forall n i a, keeps_this (for_ n i body a).
Proof.
  intros Hbody n. induction n as [|n IH]; intros i a; cbn.
  - apply keeps_this_ret.
  - apply keeps_this_bind; [apply Hbody|]. intros a'. apply IH.
Qed.

Lemma project_body_this point i z : keeps_this (project_body point i z).
Proof.
  unfold project_body, call_project.
  repeat (apply keeps_this_bind; [by intros s|intros ?]).
  apply keeps_this_ret.
Qed.

(** C8: [project] leaves the object as it found it, on every store and
    for every point, whether it returns or throws: the set holds the
    same cameras in the same order afterwards. *)
Theorem project_keeps_this point s :
  this (project point s).2 = this s.
Proof.
  revert s. change (keeps_this (project point)).
  unfold project.
  repeat (apply keeps_this_bind; [by intros s|intros ?]).
  apply keeps_this_bind.
  { case_bool_decide; by intros s. }
  intros ?. apply keeps_this_for_. apply project_body_this.
Qed.

(** *** One reference through one iteration *)

Lemma block_assign_dims (M : Matrix double) startRow startCol
    blockRows blockCols (B : Block double) :
  let M' := block_assign M startRow startCol blockRows blockCols B in
  rows M' = rows M /\ cols M' = cols M.
Proof.
  unfold block_assign.
  apply (for_n_invariant
           (fun _ M' => rows M' = rows M /\ cols M' = cols M)); [done|].
  intros k M1 _ HM1.
  by apply (for_n_invariant
              (fun _ M' => rows M' = rows M /\ cols M' = cols M)).
Qed.

Lemma dims_block_assign (ref : option (Matrix double)) r c
    startRow startCol blockRows blockCols (B : Block double) :
  dims ref r c ->
  dims ((fun M =>
           block_assign M startRow startCol blockRows blockCols B) <$> ref)
    r c.
Proof.
  intros Hdims M' HM'. destruct ref as [M|]; [|done].
  injection HM' as <-. destruct (Hdims M eq_refl) as [<- <-].
  apply block_assign_dims.
Qed.

(** Iteration [i] leaves the matrix behind a reference well formed, and
    with the row-blocks of the cameras up to [i]. *)
Lemma rows_filled_step (sel : Projection double Z -> Block double)
    (width : nat) point s0 (i : nat) (ref : option (Matrix double))
    camera out :
  cameras_ (this s0) !! i = Some camera ->
  own_projection point s0 camera = inr out ->
  (forall M, ref = Some M -> matrix_wf M) ->
  (width <> 0 -> dims ref (ZDim * length (cameras_ (this s0))) width) ->
  rows_filled sel width point s0 i ref ->
  let ref' :=
    (fun M => block_assign M (ZDim * i) 0 ZDim width (sel out)) <$> ref in
  (forall M, ref' = Some M -> matrix_wf M)
  /\ rows_filled sel width point s0 (S i) ref'.
Proof.
  intros Hcam Hout Hwf Hdims Hfilled.
  destruct ref as [M|]; cbn; [|by split].
  destruct (decide (width = 0)) as [->|Hwidth].
  { split; [intros M' [= <-]; by apply Hwf|].
    intros M' j camera' out' _ _ _ _ r c _ Hc. lia. }
  destruct (Hdims Hwidth M eq_refl) as [Hrows Hcols].
  pose proof (lookup_lt_Some _ _ _ Hcam) as Hi.
  assert (ZDim * i + ZDim <= rows M) as Hfit.
  { rewrite Hrows. replace (ZDim * i + ZDim) with (ZDim * S i) by lia.
    apply Nat.mul_le_mono_l. lia. }
  destruct (block_assign_spec M (ZDim * i) 0 ZDim width (sel out))
    as (_ & _ & Hwf' & Hcoeff); [by apply Hwf|done|lia|].
  split; [by intros M' [= <-]|].
  intros M' j camera' out' [= <-] Hj Hcam' Hout' r c Hr Hc.
  rewrite Hcoeff. destruct (decide (j = i)) as [->|Hne].
  - rewrite decide_True by lia.
    assert (out' = out) as -> by congruence.
    do 2 f_equal; lia.
  - assert (ZDim * S j <= ZDim * i) by (apply Nat.mul_le_mono_l; lia).
    rewrite decide_False by lia.
    eapply (Hfilled M j); eauto. lia.
Qed.

(** *** One iteration *)

Lemma own_projection_same_given point s0 s camera :
  same_given s0 s ->
  own_projection point s camera = own_projection point s0 camera.
Proof.
  intros (HF & HE & HH). unfold own_projection.
  by rewrite (bool_decide_ext _ _ HF), (bool_decide_ext _ _ HE),
    (bool_decide_ext _ _ HH).
Qed.

Lemma project_body_step point s0 i z s camera :
  loop_invariant point s0 i z s ->
  cameras_ (this s0) !! i = Some camera ->
  match own_projection point s0 camera with
  | inr out =>
      exists z' s',
        project_body point i z s = (Return z', s')
        /\ loop_invariant point s0 (S i) z' s'
  | inl e => project_body point i z s = (Throw (Cheirality e), s)
  end.
Proof.
  intros (Hthis & Hlen & Hgiven & HdF & HdE & HdH & HH0 & Hz & Hwf) Hcam.
  pose proof (own_projection_same_given point s0 s camera Hgiven) as Hown.
  pose proof (lookup_lt_Some _ _ _ Hcam) as Hlt.
  unfold project_body, mbind, comp_mbind, comp_bind, given, get_cameras,
    lift, call_project, subscript.
  rewrite Hthis, Hcam.
  unfold own_projection in Hown. rewrite Hown.
  fold (own_projection point s0 camera).
  destruct (own_projection point s0 camera) as [e|out] eqn:Hout; [done|].
  unfold lift, subscript_assign. rewrite decide_True by lia.
  exists (<[i := measured out]> z).
  eexists. split; [reflexivity|].
  unfold loop_invariant. cbn [this F E H].
  split; [done|]. split; [by rewrite length_insert|].
  split.
  { destruct Hgiven as (HF & HE & HH). unfold same_given. cbn [F E H].
    by rewrite !fmap_is_Some. }
  split; [by apply dims_block_assign|].
  split; [by apply dims_block_assign|].
  split; [intros HDim; by apply dims_block_assign, HdH|].
  split.
  { intros HDim. replace (Dim - 6) with 0 by lia.
    rewrite <- (HH0 HDim).
    destruct (H s) as [M|]; [|done]. cbn.
    by rewrite block_assign_no_column. }
  split.
  { intros j camera' out' Hj Hcam' Hout'.
    destruct (decide (j = i)) as [->|Hne].
    - rewrite list_lookup_insert_eq by lia. congruence.
    - rewrite list_lookup_insert_ne by done.
      eapply Hz; eauto. lia. }
  intros Hwf0. destruct (Hwf Hwf0) as (Hwfs & HfF & HfE & HfH).
  destruct (rows_filled_step Fi 6 point s0 i (F s) camera out)
    as [HwF HrF]; [done|done|intros M HM; apply Hwfs; auto|done..|].
  destruct (rows_filled_step Ei 3 point s0 i (E s) camera out)
    as [HwE HrE]; [done|done|intros M HM; apply Hwfs; auto|done..|].
  destruct (rows_filled_step Hi (Dim - 6) point s0 i (H s) camera out)
    as [HwH HrH];
    [done|done|intros M HM; apply Hwfs; auto
    |intros HDim; apply HdH; lia|done|].
  split; [|done].
  intros M [HM|[HM|HM]]; eauto.
Qed.

(** *** The whole loop *)

(** The cameras from [i] to [j] excluded project. *)
Local Abbreviation all_project point s0 i j :=
  (forall k camera,
     i <= k -> k < j -> cameras_ (this s0) !! k = Some camera ->
     exists out, own_projection point s0 camera = inr out).

(** The loop either runs to its end, with the invariant, or stops at the
    first camera that throws, with what this camera threw. *)
Lemma for_project_body point s0 n : forall i z s,
  i + n = length (cameras_ (this s0)) ->
  loop_invariant point s0 i z s ->
  (exists z' s',
      for_ n i (project_body point) z s = (Return z', s')
      /\ loop_invariant point s0 (i + n) z' s'
      /\ all_project point s0 i (i + n))
  \/ (exists j camera e s',
        i <= j
        /\ cameras_ (this s0) !! j = Some camera
        /\ own_projection point s0 camera = inl e
        /\ all_project point s0 i j
        /\ for_ n i (project_body point) z s = (Throw (Cheirality e), s')).
Proof.
  induction n as [|n IH]; intros i z s Hn Hinv.
  - left. exists z, s. rewrite Nat.add_0_r.
    split; [done|]. split; [done|]. intros; lia.
  - destruct (lookup_lt_is_Some_2 (cameras_ (this s0)) i)
      as [camera Hcam]; [lia|].
    pose proof (project_body_step point s0 i z s camera Hinv Hcam) as Hstep.
    cbn [for_]. unfold mbind, comp_mbind, comp_bind.
    destruct (own_projection point s0 camera) as [e|out] eqn:Hout.
    + right. exists i, camera, e, s. rewrite Hstep.
      split; [lia|]. do 2 (split; [done|]). split; [|done]. intros; lia.
    + destruct Hstep as (z1 & s1 & -> & Hinv1).
      destruct (IH (S i) z1 s1) as
        [(z' & s' & Hrun & Hinv' & Hall)
        |(j & camera' & e & s' & Hj & Hcam' & Hfail & Hbefore & Hrun)];
        [lia|done|..].
      * left. exists z', s'. split; [done|].
        replace (i + S n) with (S i + n) by lia. split; [done|].
        intros k camera' Hk Hk' Hcam'.
        destruct (decide (k = i)) as [->|Hne].
        { exists out. congruence. }
        apply (Hall k); [lia|done..].
      * right. exists j, camera', e, s'.
        split; [lia|]. do 2 (split; [done|]). split; [|done].
        intros k camera'' Hk Hk' Hcam''.
        destruct (decide (k = i)) as [->|Hne].
        { exists out. congruence. }
        apply (Hbefore k); [lia|done..].
Qed.

(** *** The call *)

Lemma project_entry point s :
  let nrCameras := length (cameras_ (this s)) in
  project point s =
    for_ nrCameras 0 (project_body point) (replicate nrCameras Z_init)
      (resized s).
Proof.
  unfold project, resized, mbind, comp_mbind, comp_bind, get_cameras,
    if_F, if_E, if_H. cbn.
  by case_bool_decide.
Qed.

Lemma dims_resize (ref : option (Matrix double)) r c :
  dims ((fun M => resize uninitialized M r c) <$> ref) r c.
Proof.
  intros M' HM'. destruct ref as [M|]; [|done]. injection HM' as <-.
  unfold resize. by case_decide.
Qed.

Lemma loop_invariant_entry point s :
  loop_invariant point s 0
    (replicate (length (cameras_ (this s))) Z_init) (resized s).
Proof.
  unfold loop_invariant, resized. cbn [this F E H].
  split; [done|]. split; [by rewrite length_replicate|].
  split.
  { unfold same_given. cbn [F E H]. rewrite !fmap_is_Some.
    case_bool_decide; by rewrite ?fmap_is_Some. }
  split; [apply dims_resize|]. split; [apply dims_resize|].
  split; [intros HDim; rewrite bool_decide_true by done; apply dims_resize|].
  split; [intros HDim; by rewrite bool_decide_false by lia|].
  split; [intros j camera out Hj; lia|].
  intros Hwf.
  split; [|by repeat split; intros M j camera out _ Hj; lia].
  intros M HM.
  assert (forall (ref : option (Matrix double)) r c,
            (forall M0, ref = Some M0 -> matrix_wf M0) ->
            (fun M0 => resize uninitialized M0 r c) <$> ref = Some M ->
            matrix_wf M) as Hresize.
  { intros [M0|] r c Href [= <-].
    by apply resize_shape, Href. }
  destruct HM as [HM|[HM|HM]].
  - eapply Hresize; [|done]. intros M0 HM0. apply Hwf. auto.
  - eapply Hresize; [|done]. intros M0 HM0. apply Hwf. auto.
  - case_bool_decide.
    + eapply Hresize; [|done]. intros M0 HM0. apply Hwf. auto.
    + apply Hwf. auto.
Qed.

(** The two ways a call can go. *)
Lemma project_run point s :
  let nrCameras := length (cameras_ (this s)) in
  (exists z s',
      project point s = (Return z, s')
      /\ loop_invariant point s nrCameras z s'
      /\ observable point s)
  \/ (exists j camera e s',
        cameras_ (this s) !! j = Some camera
        /\ own_projection point s camera = inl e
        /\ all_project point s 0 j
        /\ project point s = (Throw (Cheirality e), s')).
Proof.
  intros nrCameras. rewrite project_entry.
  destruct (for_project_body point s nrCameras 0
              (replicate nrCameras Z_init) (resized s))
    as [(z & s' & Hrun & Hinv & Hall)
       |(j & camera & e & s' & _ & Hcam & Hfail & Hbefore & Hrun)];
    [done|apply loop_invariant_entry|..].
  - left. exists z, s'. do 2 (split; [done|]).
    intros camera [k Hk]%list_elem_of_lookup.
    apply (Hall k); [lia| |done].
    apply lookup_lt_Some in Hk. cbn. done.
  - right. by exists j, camera, e, s'.
Qed.

(** A call on a point that every camera projects returns. *)
Lemma project_returns point s :
  observable point s ->
  exists z s',
    project point s = (Return z, s')
    /\ loop_invariant point s (length (cameras_ (this s))) z s'.
Proof.
  intros Hobs.
  destruct (project_run point s)
    as [(z & s' & Hrun & Hinv & _)|(j & camera & e & s' & Hcam & Hfail & _)].
  - by exists z, s'.
  - destruct (Hobs camera) as [out Hout].
    { by eapply list_elem_of_lookup_2. }
    congruence.
Qed.

(** C2: on a point that every camera projects, called with well-formed
    matrices, [project] returns, the matrices given are the ones
    written, and row-block [i] of each of them holds exactly the block
    that camera [i] computes by itself on that point: [Fi] over 6
    columns in [F], [Ei] over 3 columns in [E], [Hi] over [Dim - 6]
    columns in [H]. *)
Theorem project_row_blocks point s :
  references_wf s ->
  observable point s ->
  exists z s',
    project point s = (Return z, s')
    /\ same_given s s'
    /\ forall i camera out,
        cameras_ (this s) !! i = Some camera ->
        own_projection point s camera = inr out ->
        (forall M, F s' = Some M -> row_block_is M i 6 (Fi out))
        /\ (forall M, E s' = Some M -> row_block_is M i 3 (Ei out))
        /\ (forall M, H s' = Some M ->
              row_block_is M i (Dim - 6) (Hi out)).
Proof.
  intros Hwf Hobs.
  destruct (project_returns point s Hobs) as (z & s' & Hrun & Hinv).
  destruct Hinv as (_ & _ & Hgiven & _ & _ & _ & _ & _ & Hfilled).
  destruct (Hfilled Hwf) as (_ & HF & HE & HH).
  exists z, s'. do 2 (split; [done|]).
  intros i camera out Hcam Hout.
  pose proof (lookup_lt_Some _ _ _ Hcam) as Hlt.
  repeat split; intros M HM.
  - by eapply HF.
  - by eapply HE.
  - by eapply HH.
Qed.

(** C3: on a point that every camera projects, with [N] cameras in the
    set, [project] returns and leaves [F], if given, [ZDim * N] by 6,
    [E], if given, [ZDim * N] by 3, and [H], if given and [Dim > 6],
    [ZDim * N] by [Dim - 6]; when [Dim = 6] the matrix behind [H] is
    the one the caller passed, untouched. *)
Theorem project_shapes point s :
  observable point s ->
  exists z s',
    project point s = (Return z, s')
    /\ (forall M0, F s = Some M0 ->
          exists M, F s' = Some M
            /\ rows M = ZDim * length (cameras_ (this s)) /\ cols M = 6)
    /\ (forall M0, E s = Some M0 ->
          exists M, E s' = Some M
            /\ rows M = ZDim * length (cameras_ (this s)) /\ cols M = 3)
    /\ (6 < Dim -> forall M0, H s = Some M0 ->
          exists M, H s' = Some M
            /\ rows M = ZDim * length (cameras_ (this s))
            /\ cols M = Dim - 6)
    /\ (Dim = 6 -> H s' = H s).
Proof.
  intros Hobs.
  destruct (project_returns point s Hobs) as (z & s' & Hrun & Hinv).
  destruct Hinv
    as (_ & _ & (HgF & HgE & HgH) & HdF & HdE & HdH & HH0 & _).
  exists z, s'. split; [done|].
  assert (forall (ref ref' : option (Matrix double)) r c M0,
            (is_Some ref' <-> is_Some ref) -> dims ref' r c ->
            ref = Some M0 ->
            exists M, ref' = Some M /\ rows M = r /\ cols M = c)
    as Hshape.
  { intros ref ref' r c M0 Hsome Hdims Href.
    destruct (proj2 Hsome) as [M HM]; [by eexists|].
    exists M. split; [done|]. by apply Hdims. }
  split; [intros M0; by apply Hshape|].
  split; [intros M0; by apply Hshape|].
  split; [intros HDim M0; apply Hshape; auto|].
  intros HDim. apply HH0. lia.
Qed.

(** C4: on a point that every camera projects, [project] returns as
    many measurements as the set has cameras, a set without cameras
    included. *)
Theorem project_length point s :
  observable point s ->
  exists z s',
    project point s = (Return z, s')
    /\ length z = length (cameras_ (this s)).
Proof.
  intros Hobs.
  destruct (project_returns point s Hobs) as (z & s' & Hrun & Hinv).
  exists z, s'. split; [done|]. apply Hinv.
Qed.

(** C5: for a camera type whose measurement does not depend on the
    derivatives asked for, two calls on the same set and the same point,
    whatever references each is given (none and all three, say), return
    the same measurements when every camera projects the point. *)
Theorem project_measurements_same
    (measured_alone :
       forall camera point Dpose Dpoint Dcal Dpose' Dpoint' Dcal' out out',
         camera_project camera point Dpose Dpoint Dcal = inr out ->
         camera_project camera point Dpose' Dpoint' Dcal' = inr out' ->
         measured out = measured out')
    point s1 s2 :
  this s1 = this s2 ->
  observable point s1 ->
  observable point s2 ->
  exists z s1' s2',
    project point s1 = (Return z, s1')
    /\ project point s2 = (Return z, s2').
Proof.
  intros Hthis Hobs1 Hobs2.
  destruct (project_returns point s1 Hobs1) as (z1 & s1' & Hrun1 & Hinv1).
  destruct (project_returns point s2 Hobs2) as (z2 & s2' & Hrun2 & Hinv2).
  destruct Hinv1 as (_ & Hlen1 & _ & _ & _ & _ & _ & Hz1 & _).
  destruct Hinv2 as (_ & Hlen2 & _ & _ & _ & _ & _ & Hz2 & _).
  assert (z1 = z2) as ->; [|by exists z2, s1', s2'].
  apply (list_eq_same_length _ _ (length (cameras_ (this s1))));
    [by rewrite Hthis|done|].
  intros i x y Hi Hx Hy.
  destruct (lookup_lt_is_Some_2 (cameras_ (this s1)) i) as [camera Hcam];
    [done|].
  destruct (Hobs1 camera) as [out1 Hout1]; [by eapply list_elem_of_lookup_2|].
  destruct (Hobs2 camera) as [out2 Hout2].
  { rewrite <- Hthis. by eapply list_elem_of_lookup_2. }
  rewrite (Hz1 i camera out1) in Hx by done.
  rewrite (Hz2 i camera out2) in Hy by (by rewrite <- ?Hthis).
  injection Hx as <-. injection Hy as <-.
  by eapply measured_alone.
Qed.

(** C6: when a camera of the set throws on the point, [project] throws:
    it throws what the first such camera threw, as that camera threw it,
    and returns no measurement. *)
Theorem project_propagates point s :
  (exists camera e,
      camera ∈ cameras_ (this s)
      /\ own_projection point s camera = inl e) ->
  exists j camera e s',
    cameras_ (this s) !! j = Some camera
    /\ own_projection point s camera = inl e
    /\ all_project point s 0 j
    /\ project point s = (Throw (Cheirality e), s').
Proof.
  intros (camera & e & Hin & Hfail).
  destruct (project_run point s)
    as [(z & s' & _ & _ & Hobs)|Hthrow]; [|done].
  destruct (Hobs camera Hin) as [out Hout]. congruence.
Qed.

End ProjectTheory.

(** ** The class at work on the rail cameras *)

Section RailRuns.
Local Abbreviation rail_equals :=
  (equals (CheiralityException := Z) Rail.camera_equals).
Local Abbreviation rail_project :=
  (project Rail.ZDim Rail.Dim 0%Z Rail.camera_project Rail.garbage).
Local Abbreviation rail_observable := (observable Rail.camera_project).
Local Abbreviation rail_own := (own_projection Rail.camera_project).

Lemma rail_camera_equals_refl (c : Rail.Camera) (tol : Z) :
  (0 <= tol)%Z -> Rail.camera_equals c c tol = true.
Proof.
  intros Htol. unfold Rail.camera_equals.
  rewrite !Z.sub_diag. cbn. rewrite andb_diag. by apply Z.leb_le.
Qed.

Lemma rail_measured_alone camera point
    Dpose Dpoint Dcal Dpose' Dpoint' Dcal' (out out' : Projection Z Z) :
  Rail.camera_project camera point Dpose Dpoint Dcal = inr out ->
  Rail.camera_project camera point Dpose' Dpoint' Dcal' = inr out' ->
  measured out = measured out'.
Proof.
  unfold Rail.camera_project.
  destruct (point - Rail.position camera <=? 0)%Z; [done|].
  by intros [= <-] [= <-].
Qed.

Lemma rail_pair_cases (P : Rail.Camera -> Prop) :
  P Rail.near -> P Rail.far ->
  forall camera, camera ∈ cameras_ Rail.pair -> P camera.
Proof.
  intros Hnear Hfar camera Hin. cbn in Hin.
  apply elem_of_cons in Hin as [->|Hin]; [done|].
  apply elem_of_cons in Hin as [->|Hin]; [done|].
  by apply elem_of_nil in Hin.
Qed.

Lemma rail_observable_all :
  rail_observable 7%Z (Rail.call_with_all Rail.pair).
Proof. intros camera. revert camera. apply rail_pair_cases; by eexists. Qed.

Lemma rail_observable_none :
  rail_observable 7%Z (Rail.call_with_none Rail.pair).
Proof. intros camera. revert camera. apply rail_pair_cases; by eexists. Qed.

Lemma rail_references_wf :
  references_wf (Rail.call_with_all Rail.pair).
Proof. by intros M [[= <-]|[[= <-]|[= <-]]]. Qed.

(** An empty set returns no measurement and matrices without rows. *)
Example project_empty :
  rail_project 7%Z (Rail.call_with_all empty) =
    (Return [],
     mkStore empty (Some (mkMatrix 0 6 [])) (Some (mkMatrix 0 3 []))
       (Some (mkMatrix 0 1 []))).
Proof. reflexivity. Qed.

(** Two cameras, all derivatives: the stacked matrices, column by
    column. *)
Example project_pair :
  rail_project 7%Z (Rail.call_with_all Rail.pair) =
    (Return [14; 6]%Z,
     mkStore Rail.pair
       (Some (mkMatrix 4 6
          [2; 3; 3; 4; 12; 13; 13; 14; 22; 23; 23; 24;
           32; 33; 33; 34; 42; 43; 43; 44; 52; 53; 53; 54]%Z))
       (Some (mkMatrix 4 3 [7; 8; 2; 3; 6; 7; 1; 2; 5; 6; 0; 1]%Z))
       (Some (mkMatrix 4 1 [7; 14; 2; 4]%Z))).
Proof. reflexivity. Qed.

(** With a camera type of dimension 6 the matrix given for [H] comes
    back as it went in. *)
Example project_pair_pose_only :
  H (project Rail.ZDim Rail.PoseDim 0%Z Rail.camera_project Rail.garbage
       7%Z (Rail.call_with_all Rail.pair)).2 =
    Some (mkMatrix 0 0 []).
Proof. reflexivity. Qed.

(** A landmark behind the second camera: the call throws what that
    camera threw, the first row-blocks being written already. *)
Example project_behind :
  (rail_project 3%Z (Rail.call_with_none Rail.pair)).1 =
    Throw (Cheirality (-2)%Z).
Proof. reflexivity. Qed.

(** C1: two sets of two cameras that agree on the first camera and
    differ on the second are found equal: the loop stops after its
    first iteration, mismatch or not. *)
Theorem equals_stops_after_first_camera :
  length (cameras_ Rail.pair) = length (cameras_ Rail.pair')
  /\ cameras_ Rail.pair !! 1 = Some Rail.far
  /\ cameras_ Rail.pair' !! 1 = Some Rail.other
  /\ Rail.camera_equals Rail.far Rail.other 0 = false
  /\ rail_equals Rail.pair Rail.pair' 0%Z = Return true.
Proof. by repeat split. Qed.


(** A set of two cameras against the empty set: [at] throws. *)
Lemma equals_sizes_differ_witness :
  length (cameras_ Rail.pair) <> length (cameras_ (@empty Rail.Camera))
  /\ rail_equals Rail.pair empty 0%Z = Throw out_of_range.
Proof.
  split; [cbn; lia|].
  apply (equals_sizes_differ Rail.camera_equals Rail.pair empty 0%Z).
  cbn; lia.
Defined.

(** Two rail cameras, a landmark in front of both, all three matrices. *)
Lemma project_row_blocks_witness :
  references_wf (Rail.call_with_all Rail.pair)
  /\ rail_observable 7%Z (Rail.call_with_all Rail.pair)
  /\ exists z s',
      rail_project 7%Z (Rail.call_with_all Rail.pair) = (Return z, s')
      /\ same_given (Rail.call_with_all Rail.pair) s'
      /\ forall i camera out,
          cameras_ Rail.pair !! i = Some camera ->
          rail_own 7%Z (Rail.call_with_all Rail.pair) camera = inr out ->
          (forall M, F s' = Some M -> row_block_is Rail.ZDim M i 6 (Fi out))
          /\ (forall M, E s' = Some M ->
                row_block_is Rail.ZDim M i 3 (Ei out))
          /\ (forall M, H s' = Some M ->
                row_block_is Rail.ZDim M i (Rail.Dim - 6) (Hi out)).
Proof.
  split; [exact rail_references_wf|].
  split; [exact rail_observable_all|].
  exact (project_row_blocks Rail.ZDim Rail.Dim 0%Z Rail.camera_project
           Rail.garbage 7%Z (Rail.call_with_all Rail.pair)
           rail_references_wf rail_observable_all).
Defined.

(** The same call, for the sizes. *)
Lemma project_shapes_witness :
  rail_observable 7%Z (Rail.call_with_all Rail.pair)
  /\ exists z s',
      rail_project 7%Z (Rail.call_with_all Rail.pair) = (Return z, s')
      /\ (forall M0, F (Rail.call_with_all Rail.pair) = Some M0 ->
            exists M, F s' = Some M
              /\ rows M = Rail.ZDim * length (cameras_ Rail.pair)
              /\ cols M = 6)
      /\ (forall M0, E (Rail.call_with_all Rail.pair) = Some M0 ->
            exists M, E s' = Some M
              /\ rows M = Rail.ZDim * length (cameras_ Rail.pair)
              /\ cols M = 3)
      /\ (6 < Rail.Dim ->
          forall M0, H (Rail.call_with_all Rail.pair) = Some M0 ->
            exists M, H s' = Some M
              /\ rows M = Rail.ZDim * length (cameras_ Rail.pair)
              /\ cols M = Rail.Dim - 6)
      /\ (Rail.Dim = 6 -> H s' = H (Rail.call_with_all Rail.pair)).
Proof.
  split; [exact rail_observable_all|].
  exact (project_shapes Rail.ZDim Rail.Dim 0%Z Rail.camera_project
           Rail.garbage 7%Z (Rail.call_with_all Rail.pair)
           rail_observable_all).
Defined.

(** The same call, for the number of measurements. *)
Lemma project_length_witness :
  rail_observable 7%Z (Rail.call_with_all Rail.pair)
  /\ exists z s',
      rail_project 7%Z (Rail.call_with_all Rail.pair) = (Return z, s')
      /\ length z = 2.
Proof.
  split; [exact rail_observable_all|].
  exact (project_length Rail.ZDim Rail.Dim 0%Z Rail.camera_project
           Rail.garbage 7%Z (Rail.call_with_all Rail.pair)
           rail_observable_all).
Defined.

(** The same set and landmark, without any matrix and with all three. *)
Lemma project_measurements_same_witness :
  rail_observable 7%Z (Rail.call_with_none Rail.pair)
  /\ rail_observable 7%Z (Rail.call_with_all Rail.pair)
  /\ exists z s1' s2',
      rail_project 7%Z (Rail.call_with_none Rail.pair) = (Return z, s1')
      /\ rail_project 7%Z (Rail.call_with_all Rail.pair) = (Return z, s2').
Proof.
  split; [exact rail_observable_none|].
  split; [exact rail_observable_all|].
  exact (project_measurements_same Rail.ZDim Rail.Dim 0%Z
           Rail.camera_project Rail.garbage rail_measured_alone 7%Z
           (Rail.call_with_none Rail.pair) (Rail.call_with_all Rail.pair)
           eq_refl rail_observable_none rail_observable_all).
Defined.

(** A landmark behind the second rail camera. *)
Lemma project_propagates_witness :
  (exists camera e,
      camera ∈ cameras_ Rail.pair
      /\ rail_own 3%Z (Rail.call_with_all Rail.pair) camera = inl e)
  /\ exists j camera e s',
      cameras_ Rail.pair !! j = Some camera
      /\ rail_own 3%Z (Rail.call_with_all Rail.pair) camera = inl e
      /\ (forall k camera',
            0 <= k -> k < j -> cameras_ Rail.pair !! k = Some camera' ->
            exists out,
              rail_own 3%Z (Rail.call_with_all Rail.pair) camera' = inr out)
      /\ rail_project 3%Z (Rail.call_with_all Rail.pair)
         = (Throw (Cheirality e), s').
Proof.
  assert (exists camera e,
             camera ∈ cameras_ Rail.pair
             /\ rail_own 3%Z (Rail.call_with_all Rail.pair) camera = inl e)
    as Hfails.
  { exists Rail.far, (-2)%Z. split; [|reflexivity].
    cbn. rewrite !elem_of_cons. auto. }
  split; [exact Hfails|].
  exact (project_propagates Rail.ZDim Rail.Dim 0%Z Rail.camera_project
           Rail.garbage 3%Z (Rail.call_with_all Rail.pair) Hfails).
Defined.

End RailRuns.

(** ** More on [equals], [add] and [print] *)

Section SetTheory.
Context {double CAMERA CheiralityException : Type}.
Variable camera_equals : CAMERA -> CAMERA -> double -> bool.
Variable camera_print : CAMERA -> string.

Local Abbreviation equals :=
  (equals (CheiralityException := CheiralityException) camera_equals).
Local Abbreviation print :=
  (print (X := CheiralityException) camera_print).

(** X1: [equals] fails in one way only, with [out_of_range], and it does
    so exactly when this set has a camera and the other has none; in all
    other cases it returns a Boolean. *)
Theorem equals_out_of_range_iff (this p : CameraSet CAMERA) (tol : double) :
  (equals this p tol = Throw out_of_range
   <-> cameras_ this <> [] /\ cameras_ p = [])
  /\ (equals this p tol = Throw out_of_range
      \/ exists b, equals this p tol = Return b).
Proof.
  rewrite equals_first.
  destruct (cameras_ this) as [|a l], (cameras_ p) as [|b l'];
    (split; [split; [try done|intros [? ?]; done]|eauto]).
Qed.

(** X2: the outcome of [equals] depends on the first camera of each set
    and on nothing else: sets that start with the same cameras, or are
    empty alike, give the same outcome, whatever their sizes and their
    other cameras. *)
Theorem equals_first_cameras_only (this p this' p' : CameraSet CAMERA)
    (tol : double) :
  head (cameras_ this) = head (cameras_ this') ->
  head (cameras_ p) = head (cameras_ p') ->
  equals this p tol = equals this' p' tol.
Proof.
  intros Hthis Hp. rewrite !equals_first.
  destruct (cameras_ this) as [|a l], (cameras_ this') as [|a' k];
    destruct (cameras_ p) as [|b l'], (cameras_ p') as [|b' k'];
    cbn in Hthis, Hp; congruence.
Qed.

(** X3: cameras added one by one are appended in the order of the calls:
    after the calls the set holds the cameras it held, at the same
    indices, followed by the added ones. *)
Theorem add_all (this : CameraSet CAMERA) (l : list CAMERA) :
  cameras_ (foldl add this l) = cameras_ this ++ l.
Proof.
  revert this. induction l as [|camera l IH]; intros this; cbn.
  - by rewrite app_nil_r.
  - rewrite IH. cbn. by rewrite <- app_assoc.
Qed.

Lemma for_print_body (this : CameraSet CAMERA) (n : nat) :
  forall (i : nat) (cout : list string),
    i + n = length (cameras_ this) ->
    for_break (St := list string) n i
      (print_body (X := CheiralityException) camera_print this) cout
    = Return (cout ++ (camera_print <$> drop i (cameras_ this))).
Proof.
  induction n as [|n IH]; intros i cout Hn; cbn.
  - rewrite drop_ge by lia. by rewrite app_nil_r.
  - destruct (lookup_lt_is_Some_2 (cameras_ this) i) as [camera Hcam];
      [lia|].
    unfold print_body, subscript. rewrite Hcam. cbn.
    rewrite IH by lia. rewrite (drop_S _ _ _ Hcam). cbn.
    by rewrite <- app_assoc.
Qed.

(** X4: [print] returns, and what it writes on the stream is the label,
    the header line and then the text of every camera of the set, in the
    order of the set; what was on the stream stays in front. *)
Theorem print_writes (this : CameraSet CAMERA) (s : string)
    (cout : list string) :
  print this s cout =
    Return (cout ++ [s] ++ ["CameraSet, cameras = " +:+ newline]
              ++ (camera_print <$> cameras_ this)).
Proof.
  unfold print. rewrite for_print_body by lia.
  rewrite drop_0. by rewrite <- !app_assoc.
Qed.

End SetTheory.

(** ** More on [project] *)

Section ProjectMore.
Context {double CAMERA Z Point3 CheiralityException : Type}.
Variables ZDim Dim : nat.
Variable Z_init : Z.
Variable camera_project :
  CAMERA -> Point3 -> bool -> bool -> bool ->
  CheiralityException + Projection double Z.
Variable uninitialized : nat -> double.

Local Abbreviation Store := (Store double CAMERA).
Local Abbreviation project_body := (project_body ZDim Dim camera_project).
Local Abbreviation project_with Z_init uninitialized :=
  (project ZDim Dim Z_init camera_project uninitialized).
Local Abbreviation project := (project_with Z_init uninitialized).
Local Abbreviation resized := (resized ZDim Dim uninitialized).
Local Abbreviation own_projection := (own_projection camera_project).
Local Abbreviation observable := (observable camera_project).
Local Abbreviation loop_invariant :=
  (loop_invariant ZDim Dim camera_project).
Local Abbreviation row_block_is := (row_block_is ZDim).
Local Abbreviation rows_filled := (rows_filled ZDim camera_project).
Local Abbreviation sized_for := (sized_for ZDim Dim).
Local Abbreviation stacked_before := (stacked_before ZDim Dim camera_project).
Local Abbreviation emptied := (emptied Dim).

Implicit Types (s : Store) (point : Point3) (z : list Z).

(** *** Where the loop stops *)

(** The loop stops before some iteration [k] with the invariant there:
    at the end, or at a camera that throws. *)
Lemma for_project_body_stop point s0 n : forall i z s,
  i + n = length (cameras_ (this s0)) ->
  loop_invariant point s0 i z s ->
  exists k z' s' o,
    for_ n i (project_body point) z s = (o, s')
    /\ loop_invariant point s0 k z' s'
    /\ ((o = Return z' /\ k = i + n)
        \/ exists camera e,
            cameras_ (this s0) !! k = Some camera
            /\ own_projection point s0 camera = inl e
            /\ o = Throw (Cheirality e)).
Proof.
  induction n as [|n IH]; intros i z s Hn Hinv.
  - exists i, z, s, (Return z). rewrite Nat.add_0_r. by auto.
  - destruct (lookup_lt_is_Some_2 (cameras_ (this s0)) i)
      as [camera Hcam]; [lia|].
    pose proof (project_body_step ZDim Dim camera_project
                  point s0 i z s camera Hinv Hcam) as Hstep.
    cbn [for_]. unfold mbind, comp_mbind, comp_bind.
    destruct (own_projection point s0 camera) as [e|out] eqn:Hout.
    + exists i, z, s, (Throw (Cheirality e)). rewrite Hstep.
      do 2 (split; [done|]). right. by exists camera, e.
    + destruct Hstep as (z1 & s1 & -> & Hinv1).
      destruct (IH (S i) z1 s1) as (k & z' & s' & o & Hrun & Hinv' & Hends);
        [lia|done|].
      exists k, z', s', o. do 2 (split; [done|]).
      destruct Hends as [[-> ->]|Hthrows]; [left; split; [done|lia]|by right].
Qed.

Lemma project_stop point s :
  exists k z' s' o,
    project point s = (o, s')
    /\ loop_invariant point s k z' s'
    /\ ((o = Return z' /\ k = length (cameras_ (this s)))
        \/ exists camera e,
            cameras_ (this s) !! k = Some camera
            /\ own_projection point s camera = inl e
            /\ o = Throw (Cheirality e)).
Proof.
  rewrite project_entry.
  apply (for_project_body_stop point s (length (cameras_ (this s))) 0);
    [done|apply loop_invariant_entry].
Qed.

(** X5: on a point that every camera projects, the measurement at index
    [i] of the result is the one camera [i] computes by itself: the
    cameras are measured in the order of the set, and no
    value-initialised measurement is left. *)
Theorem project_measurements_own point s :
  observable point s ->
  exists z s',
    project point s = (Return z, s')
    /\ forall i camera out,
        cameras_ (this s) !! i = Some camera ->
        own_projection point s camera = inr out ->
        z !! i = Some (measured out).
Proof.
  intros Hobs.
  destruct (project_returns ZDim Dim Z_init camera_project uninitialized
              point s Hobs) as (z & s' & Hrun & Hinv).
  destruct Hinv as (_ & _ & _ & _ & _ & _ & _ & Hz & _).
  exists z, s'. split; [done|]. intros i camera out Hcam Hout.
  apply (Hz i camera out); [|done..]. by eapply lookup_lt_Some.
Qed.

(** X7: whether it returns or throws, [project] writes through the
    references it is given only: a reference that is not given stays so,
    and with a camera type of dimension 6 or less the matrix behind [H]
    is never touched. *)
Theorem project_references_kept point s :
  same_given s (project point s).2
  /\ (Dim <= 6 -> H (project point s).2 = H s).
Proof.
  destruct (project_stop point s) as (k & z & s' & o & -> & Hinv & _).
  destruct Hinv as (_ & _ & Hgiven & _ & _ & _ & HH & _). by split.
Qed.

(** X8: a call that throws has written through the references already:
    the matrices given have the sizes of the full result, and hold the
    row-blocks of the cameras before the one that threw. *)
Theorem project_throw_state point s (e : exception CheiralityException) s' :
  project point s = (Throw e, s') ->
  sized_for s s'
  /\ exists j camera e',
      cameras_ (this s) !! j = Some camera
      /\ own_projection point s camera = inl e'
      /\ e = Cheirality e'
      /\ (references_wf s -> stacked_before point s j s').
Proof.
  intros Hrun.
  destruct (project_stop point s)
    as (k & z & s1 & o & Hrun' & Hinv & Hends).
  rewrite Hrun in Hrun'. injection Hrun' as <- <-.
  destruct Hends as [[? _]|(camera & e' & Hcam & Hfail & [= ->])]; [done|].
  destruct Hinv as (_ & _ & _ & HdF & HdE & HdH & _ & _ & Hfilled).
  split; [done|]. exists k, camera, e'. do 3 (split; [done|]).
  intros Hwf. by destruct (Hfilled Hwf) as (_ & ? & ? & ?).
Qed.

(** *** Growing the set *)

(** X9: adding a camera to the set adds its measurement at the end of
    the result and changes no other: on a point that every camera of the
    larger set projects, [project] on the larger set returns what it
    returns on the smaller one, followed by the measurement of the added
    camera. *)
Theorem project_add point s camera :
  observable point (with_added s camera) ->
  exists z out s1 s2,
    project point s = (Return z, s1)
    /\ own_projection point s camera = inr out
    /\ project point (with_added s camera)
       = (Return (z ++ [measured out]), s2).
Proof.
  intros Hobs.
  assert (observable point s) as Hobs0.
  { intros cam Hin. apply (Hobs cam). cbn. apply elem_of_app. by left. }
  destruct (Hobs camera) as [out Hout].
  { cbn. apply elem_of_app. right. by apply list_elem_of_singleton. }
  destruct (project_returns ZDim Dim Z_init camera_project uninitialized
              point s Hobs0) as (z1 & s1 & Hrun1 & Hinv1).
  destruct (project_returns ZDim Dim Z_init camera_project uninitialized
              point _ Hobs) as (z2 & s2 & Hrun2 & Hinv2).
  destruct Hinv1 as (_ & Hlen1 & _ & _ & _ & _ & _ & Hz1 & _).
  destruct Hinv2 as (_ & Hlen2 & _ & _ & _ & _ & _ & Hz2 & _).
  cbn in Hlen2. rewrite length_app in Hlen2. cbn in Hlen2.
  exists z1, out, s1, s2. do 2 (split; [done|]).
  rewrite Hrun2. do 2 f_equal.
  apply (list_eq_same_length _ _ (length (cameras_ (this s)) + 1));
    [by rewrite length_app, Hlen1|done|].
  intros i x y Hi Hx Hy.
  destruct (decide (i < length (cameras_ (this s)))) as [Hlt|Hge].
  - destruct (lookup_lt_is_Some_2 (cameras_ (this s)) i) as [cam Hcam];
      [done|].
    destruct (Hobs0 cam) as [outi Houti]; [by eapply list_elem_of_lookup_2|].
    rewrite lookup_app_l in Hy by lia.
    rewrite (Hz1 i cam outi) in Hy by done.
    rewrite (Hz2 i cam outi) in Hx;
      [congruence|cbn; rewrite length_app; lia
      |cbn; by rewrite lookup_app_l|done].
  - assert (i = length (cameras_ (this s))) as -> by lia.
    rewrite lookup_app_r, Hlen1, Nat.sub_diag in Hy by lia.
    rewrite (Hz2 _ camera out) in Hx;
      [cbn in Hy; congruence|cbn; rewrite length_app; cbn; lia
      |cbn; by apply list_lookup_middle|done].
Qed.

(** *** A set without cameras *)

Lemma resize_no_row (M : Matrix double) (c : nat) :
  matrix_wf M -> resize uninitialized M 0 c = mkMatrix 0 c [].
Proof.
  intros Hwf. unfold resize. case_decide as Hsize; [|done].
  f_equal. apply nil_length_inv. rewrite Hwf, Hsize. lia.
Qed.

(** X10: on a set without cameras [project] returns no measurement, for
    every point, and leaves each well-formed matrix it is given without
    rows and without coefficients: 0 by 6 for [F], 0 by 3 for [E], 0 by
    [Dim - 6] for [H] when [Dim > 6]. *)
Theorem project_no_camera point s :
  cameras_ (this s) = [] ->
  references_wf s ->
  project point s = (Return [], emptied s).
Proof.
  intros Hempty Hwf. rewrite project_entry. rewrite Hempty.
  cbn [length replicate for_]. unfold mret, comp_ret. f_equal.
  unfold resized, emptied. rewrite Hempty. cbn [length].
  rewrite Nat.mul_0_r.
  assert (forall (ref : option (Matrix double)) c,
            (forall M, ref = Some M -> matrix_wf M) ->
            (fun M => resize uninitialized M 0 c) <$> ref
            = (fun _ => mkMatrix 0 c []) <$> ref) as Hresize.
  { intros [M|] c Href; [|done]. cbn. f_equal. by apply resize_no_row, Href. }
  rewrite (Hresize (F s) 6), (Hresize (E s) 3), (Hresize (H s) (Dim - 6))
    by (intros M HM; apply Hwf; auto).
  done.
Qed.

(** *** Nothing is left of what the matrices held *)

(** Two well-formed matrices of the same sizes with the same coefficients
    are the same matrix. *)
Lemma matrix_ext (M1 M2 : Matrix double) :
  rows M1 = rows M2 -> cols M1 = cols M2 ->
  matrix_wf M1 -> matrix_wf M2 ->
  (forall r c, r < rows M1 -> c < cols M1 -> coeff M1 r c = coeff M2 r c) ->
  M1 = M2.
Proof.
  destruct M1 as [R C d1], M2 as [R2 C2 d2]. unfold matrix_wf, coeff. cbn.
  intros <- <- Hwf1 Hwf2 Hcoeff. f_equal.
  apply (list_eq_same_length _ _ (R * C)); [done..|].
  intros k x y Hk Hx Hy.
  assert (R <> 0) as HR by (intros ->; lia).
  pose proof (Nat.mod_upper_bound k R HR) as Hr.
  assert (k / R < C) as Hc by (by apply Nat.Div0.div_lt_upper_bound).
  specialize (Hcoeff (k mod R) (k / R) Hr Hc).
  rewrite !decide_True in Hcoeff by done.
  replace (k mod R + k / R * R) with k in Hcoeff
    by (pose proof (Nat.div_mod_eq k R); lia).
  congruence.
Qed.

(** Two matrices that stack the row-blocks of all the cameras are the
    same matrix. *)
Lemma rows_filled_eq (sel : Projection double Z -> Block double)
    (width : nat) point s (ref1 ref2 : option (Matrix double)) :
  observable point s ->
  (is_Some ref1 <-> is_Some ref2) ->
  dims ref1 (ZDim * length (cameras_ (this s))) width ->
  dims ref2 (ZDim * length (cameras_ (this s))) width ->
  (forall M, ref1 = Some M -> matrix_wf M) ->
  (forall M, ref2 = Some M -> matrix_wf M) ->
  rows_filled sel width point s (length (cameras_ (this s))) ref1 ->
  rows_filled sel width point s (length (cameras_ (this s))) ref2 ->
  ref1 = ref2.
Proof.
  intros Hobs Hsome Hd1 Hd2 Hwf1 Hwf2 Hf1 Hf2.
  destruct ref1 as [M1|], ref2 as [M2|]; [|by destruct Hsome as [[] _]
                                          |by destruct Hsome as [_ []]|done].
  destruct (Hd1 M1 eq_refl) as [HR1 HC1].
  destruct (Hd2 M2 eq_refl) as [HR2 HC2].
  f_equal. apply matrix_ext; [congruence|congruence|by auto..|].
  intros r c Hr Hc. rewrite HR1 in Hr. rewrite HC1 in Hc.
  assert (ZDim <> 0) as HZ by (intros ->; lia).
  pose proof (Nat.mod_upper_bound r ZDim HZ) as Hr'.
  assert (r / ZDim < length (cameras_ (this s))) as Hi
    by (by apply Nat.Div0.div_lt_upper_bound).
  pose proof (Nat.div_mod_eq r ZDim) as Hsplit.
  destruct (lookup_lt_is_Some_2 _ _ Hi) as [camera Hcam].
  destruct (Hobs camera) as [out Hout]; [by eapply list_elem_of_lookup_2|].
  rewrite Hsplit.
  rewrite (Hf1 M1 (r / ZDim) camera out eq_refl Hi Hcam Hout) by done.
  by rewrite (Hf2 M2 (r / ZDim) camera out eq_refl Hi Hcam Hout) by done.
Qed.

(** X11: the results of [project] are determined by the set, the point
    and the references given: on a point that every camera projects, the
    measurements and the matrices [F] and [E], and [H] when [Dim > 6],
    come out the same whatever the well-formed matrices given held,
    whatever uninitialised storage holds and whatever a value-initialised
    measurement is. *)
Theorem project_outputs_determined (Z_init' : Z)
    (uninitialized' : nat -> double) point s1 s2 :
  this s1 = this s2 ->
  same_given s1 s2 ->
  references_wf s1 ->
  references_wf s2 ->
  observable point s1 ->
  exists z s1' s2',
    project point s1 = (Return z, s1')
    /\ project_with Z_init' uninitialized' point s2 = (Return z, s2')
    /\ F s1' = F s2'
    /\ E s1' = E s2'
    /\ (6 < Dim -> H s1' = H s2').
Proof.
  intros Hthis Hgiven Hwf1 Hwf2 Hobs1.
  pose proof (fun camera =>
    own_projection_same_given camera_project point s1 s2 camera Hgiven)
    as Hown.
  assert (observable point s2) as Hobs2.
  { intros camera Hin. rewrite Hown. apply Hobs1. by rewrite Hthis. }
  destruct (project_returns ZDim Dim Z_init camera_project uninitialized
              point s1 Hobs1) as (z1 & s1' & Hrun1 & Hinv1).
  destruct (project_returns ZDim Dim Z_init' camera_project uninitialized'
              point s2 Hobs2) as (z2 & s2' & Hrun2 & Hinv2).
  destruct Hinv1 as (_ & Hlen1 & (HgF1 & HgE1 & HgH1) & HdF1 & HdE1 & HdH1
                     & _ & Hz1 & Hfilled1).
  destruct Hinv2 as (_ & Hlen2 & (HgF2 & HgE2 & HgH2) & HdF2 & HdE2 & HdH2
                     & _ & Hz2 & Hfilled2).
  destruct Hgiven as (HgF & HgE & HgH).
  destruct (Hfilled1 Hwf1) as (Hwf1' & HF1 & HE1 & HH1).
  destruct (Hfilled2 Hwf2) as (Hwf2' & HF2 & HE2 & HH2).
  rewrite <- Hthis in *.
  assert (forall sel width i ref,
            rows_filled sel width point s2 i ref ->
            rows_filled sel width point s1 i ref) as Hmove.
  { intros sel width i ref Hf M j camera out HM Hj Hcam Hout.
    apply (Hf M j camera out); [done..|by rewrite <- Hthis|by rewrite Hown]. }
  assert (z1 = z2) as <-.
  { apply (list_eq_same_length _ _ (length (cameras_ (this s1))));
      [done..|].
    intros i x y Hi Hx Hy.
    destruct (lookup_lt_is_Some_2 _ _ Hi) as [camera Hcam].
    destruct (Hobs1 camera) as [out Hout];
      [by eapply list_elem_of_lookup_2|].
    rewrite (Hz1 i camera out) in Hx by done.
    rewrite (Hz2 i camera out) in Hy
      by (done || by rewrite <- ?Hthis, ?Hown).
    congruence. }
  exists z1, s1', s2'. do 2 (split; [done|]).
  assert (forall M, F s1' = Some M \/ E s1' = Some M \/ H s1' = Some M ->
                    matrix_wf M) as Hw1 by done.
  assert (forall M, F s2' = Some M \/ E s2' = Some M \/ H s2' = Some M ->
                    matrix_wf M) as Hw2 by done.
  split; [|split; [|intros HDim]].
  - apply (rows_filled_eq Fi 6 point s1);
      first [done | by rewrite HgF1, HgF2 | by apply Hmove
            | by intros M HM; apply Hw1; auto
            | by intros M HM; apply Hw2; auto].
  - apply (rows_filled_eq Ei 3 point s1);
      first [done | by rewrite HgE1, HgE2 | by apply Hmove
            | by intros M HM; apply Hw1; auto
            | by intros M HM; apply Hw2; auto].
  - apply (rows_filled_eq Hi (Dim - 6) point s1);
      first [done | by rewrite HgH1, HgH2 | by apply Hmove
            | by apply HdH1 | by apply HdH2
            | by intros M HM; apply Hw1; auto
            | by intros M HM; apply Hw2; auto].
Qed.

End ProjectMore.

(** ** More runs on the rail cameras *)

Section RailMoreRuns.
Local Abbreviation rail_equals :=
  (equals (CheiralityException := Z) Rail.camera_equals).
Local Abbreviation rail_project_with Z_init uninitialized :=
  (project Rail.ZDim Rail.Dim Z_init Rail.camera_project uninitialized).
Local Abbreviation rail_project := (rail_project_with 0%Z Rail.garbage).
Local Abbreviation rail_observable := (observable Rail.camera_project).
Local Abbreviation rail_own := (own_projection Rail.camera_project).

Lemma rail_wf_all (cameras : CameraSet Rail.Camera) :
  references_wf (Rail.call_with_all cameras).
Proof. by intros M [[= <-]|[[= <-]|[= <-]]]. Qed.

Lemma rail_wf_used (cameras : CameraSet Rail.Camera) :
  references_wf (Rail.call_with_used cameras).
Proof. by intros M [[= <-]|[[= <-]|[= <-]]]. Qed.

Lemma rail_same_given_used (cameras : CameraSet Rail.Camera) :
  same_given (Rail.call_with_all cameras) (Rail.call_with_used cameras).
Proof. by repeat split; intros _; eexists. Qed.

(** Matrices that held something, other storage and another initial
    measurement: the same results. *)
Example project_pair_used :
  rail_project_with 99%Z Rail.other_garbage 7%Z
    (Rail.call_with_used Rail.pair)
  = rail_project 7%Z (Rail.call_with_all Rail.pair).
Proof. reflexivity. Qed.

(** Sets that start with the same camera. *)
Lemma equals_first_cameras_only_witness :
  head (cameras_ Rail.pair) = head (cameras_ Rail.pair')
  /\ head (cameras_ Rail.pair) = head (cameras_ Rail.single)
  /\ rail_equals Rail.pair Rail.pair 0%Z
     = rail_equals Rail.pair' Rail.single 0%Z.
Proof.
  do 2 (split; [reflexivity|]).
  exact (equals_first_cameras_only Rail.camera_equals
           Rail.pair Rail.pair Rail.pair' Rail.single 0%Z eq_refl eq_refl).
Defined.

(** Two rail cameras and a landmark in front of both. *)
Lemma project_measurements_own_witness :
  rail_observable 7%Z (Rail.call_with_all Rail.pair)
  /\ exists z s',
      rail_project 7%Z (Rail.call_with_all Rail.pair) = (Return z, s')
      /\ forall i camera out,
          cameras_ Rail.pair !! i = Some camera ->
          rail_own 7%Z (Rail.call_with_all Rail.pair) camera = inr out ->
          z !! i = Some (measured out).
Proof.
  split; [exact rail_observable_all|].
  exact (project_measurements_own Rail.ZDim Rail.Dim 0%Z Rail.camera_project
           Rail.garbage 7%Z (Rail.call_with_all Rail.pair)
           rail_observable_all).
Defined.

(** A landmark behind the second rail camera. *)
Lemma project_throw_state_witness :
  rail_project 3%Z (Rail.call_with_all Rail.pair)
  = (Throw (Cheirality (-2)%Z),
     (rail_project 3%Z (Rail.call_with_all Rail.pair)).2)
  /\ sized_for Rail.ZDim Rail.Dim (Rail.call_with_all Rail.pair)
       (rail_project 3%Z (Rail.call_with_all Rail.pair)).2
  /\ exists j camera e',
      cameras_ Rail.pair !! j = Some camera
      /\ rail_own 3%Z (Rail.call_with_all Rail.pair) camera = inl e'
      /\ Cheirality (-2)%Z = Cheirality e'
      /\ (references_wf (Rail.call_with_all Rail.pair) ->
          stacked_before Rail.ZDim Rail.Dim Rail.camera_project 3%Z
            (Rail.call_with_all Rail.pair) j
            (rail_project 3%Z (Rail.call_with_all Rail.pair)).2).
Proof.
  split; [reflexivity|].
  exact (project_throw_state Rail.ZDim Rail.Dim 0%Z Rail.camera_project
           Rail.garbage 3%Z (Rail.call_with_all Rail.pair)
           (Cheirality (-2)%Z) _ eq_refl).
Defined.

(** The set of one rail camera, and the second one added to it. *)
Lemma project_add_witness :
  rail_observable 7%Z
    (with_added (Rail.call_with_all Rail.single) Rail.far)
  /\ exists z out s1 s2,
      rail_project 7%Z (Rail.call_with_all Rail.single) = (Return z, s1)
      /\ rail_own 7%Z (Rail.call_with_all Rail.single) Rail.far = inr out
      /\ rail_project 7%Z
           (with_added (Rail.call_with_all Rail.single) Rail.far)
         = (Return (z ++ [measured out]), s2).
Proof.
  split; [exact rail_observable_all|].
  exact (project_add Rail.ZDim Rail.Dim 0%Z Rail.camera_project
           Rail.garbage 7%Z (Rail.call_with_all Rail.single) Rail.far
           rail_observable_all).
Defined.

(** The empty set and three matrices. *)
Lemma project_no_camera_witness :
  cameras_ (this (Rail.call_with_all empty)) = []
  /\ references_wf (Rail.call_with_all empty)
  /\ rail_project 7%Z (Rail.call_with_all empty)
     = (Return [], emptied Rail.Dim (Rail.call_with_all empty)).
Proof.
  split; [reflexivity|]. split; [exact (rail_wf_all empty)|].
  exact (project_no_camera Rail.ZDim Rail.Dim 0%Z Rail.camera_project
           Rail.garbage 7%Z (Rail.call_with_all empty) eq_refl
           (rail_wf_all empty)).
Defined.

(** Default-constructed matrices against matrices that held something. *)
Lemma project_outputs_determined_witness :
  this (Rail.call_with_all Rail.pair) = this (Rail.call_with_used Rail.pair)
  /\ same_given (Rail.call_with_all Rail.pair)
       (Rail.call_with_used Rail.pair)
  /\ references_wf (Rail.call_with_all Rail.pair)
  /\ references_wf (Rail.call_with_used Rail.pair)
  /\ rail_observable 7%Z (Rail.call_with_all Rail.pair)
  /\ exists z s1' s2',
      rail_project 7%Z (Rail.call_with_all Rail.pair) = (Return z, s1')
      /\ rail_project_with 99%Z Rail.other_garbage 7%Z
           (Rail.call_with_used Rail.pair) = (Return z, s2')
      /\ F s1' = F s2'
      /\ E s1' = E s2'
      /\ (6 < Rail.Dim -> H s1' = H s2').
Proof.
  split; [reflexivity|].
  split; [exact (rail_same_given_used Rail.pair)|].
  split; [exact (rail_wf_all Rail.pair)|].
  split; [exact (rail_wf_used Rail.pair)|].
  split; [exact rail_observable_all|].
  exact (project_outputs_determined Rail.ZDim Rail.Dim 0%Z
           Rail.camera_project Rail.garbage 99%Z Rail.other_garbage 7%Z
           (Rail.call_with_all Rail.pair) (Rail.call_with_used Rail.pair)
           eq_refl (rail_same_given_used Rail.pair) (rail_wf_all Rail.pair)
           (rail_wf_used Rail.pair) rail_observable_all).
Defined.

End RailMoreRuns.
